(** * Immix block recycling, block pools and bump allocation

    Shallow embedding of the immix heap core of scala-native
    (nativelib/src/main/resources/gc/immix).  The header [Block.h] declares
    [LAST_HOLE] and [Block_Recycle]; the body of [Block_Recycle], the block
    allocator and the mutator allocator are modelled from the spec. *)

From Stdlib Require Import ZArith Lia Sorting.Sorted.
From stdpp Require Import base list gmap.

Open Scope nat_scope.

(** ** Block.h *)

(** [#define LAST_HOLE -1]: the value of the "next" word of the last hole. *)
Definition LAST_HOLE : Z := (-1)%Z.

(** Per-line metadata: the mark bit set by the tracer and the optional
    object-start disambiguation bit. *)
Record LineMeta := mkLine {
  line_marked : bool;
  line_objstart : bool
}.

Inductive BlockState := Free | Recyclable | Unavailable.

(** The first words of a hole: offset (line index) of the next hole, or
    [LAST_HOLE], and the size of the hole in lines. *)
Record FreeLineMeta := mkFreeLine {
  fl_next : Z;
  fl_size : Z
}.

Record BlockMeta := mkBlockMeta {
  bm_state : BlockState;
  bm_first : Z;      (* offset of the first hole, or LAST_HOLE *)
  bm_marked : nat;   (* number of marked lines *)
  bm_free : nat      (* free-line count computed by the recycler *)
}.

(** A block: its metadata record, its line-metadata table, and the first
    words of its lines (where the hole list is threaded), by line index. *)
Record Block := mkBlock {
  blk_meta : BlockMeta;
  blk_lines : list LineMeta;
  blk_mem : gmap nat FreeLineMeta
}.

(** A hole: (offset in lines, length in lines). *)
Definition Hole := (nat * nat)%type.

Definition sum_lengths (hs : list Hole) : nat := foldr (fun h acc => snd h + acc) 0 hs.

Fixpoint count_marked (ls : list LineMeta) : nat :=
  match ls with
  | [] => 0
  | l :: ls' => (if line_marked l then 1 else 0) + count_marked ls'
  end.

Definition no_marks (ls : list LineMeta) : bool :=
  forallb (fun l => negb (line_marked l)) ls.

(** The reserved metadata line is line 0 (the block header at
    [blockStart]). *)
Definition METADATA_LINES : nat := 1.

Section Recycle.

(** The minimum allocation granularity, in lines: a policy constant. *)
Variable MIN_LINES : nat.

(** Close the candidate hole [cur]: it is recorded if it is at least
    [MIN_LINES] long, otherwise folded into excluded space. *)
Definition close_hole (cur : option Hole) (rest : list Hole) : list Hole :=
  match cur with
  | Some (s, n) => if MIN_LINES <=? n then (s, n) :: rest else rest
  | None => rest
  end.

(** Modelled from the spec: the line scan of [Block_Recycle] (Block.c is
    not part of the sources).  [i] is the index of the current line,
    [prev] whether the previous line is marked, [cur] the candidate hole
    being scanned.  A marked line closes the current hole; the first
    unmarked line after a marked line is skipped (conservative boundary
    rule) unless its object-start bit is set; any other unmarked line
    starts or extends a hole; the end of the block closes the hole. *)
Fixpoint scan (i : nat) (prev : bool) (cur : option Hole) (ls : list LineMeta)
    : list Hole :=
  match ls with
  | [] => close_hole cur []
  | l :: ls' =>
      if line_marked l then close_hole cur (scan (S i) true None ls')
      else if prev && negb (line_objstart l) then scan (S i) false None ls'
      else match cur with
           | None => scan (S i) false (Some (i, 1)) ls'
           | Some (s, n) => scan (S i) false (Some (s, S n)) ls'
           end
  end.

Definition scan_holes (ls : list LineMeta) : list Hole := scan 0 false None ls.

(** Modelled from the spec: the classification at the end of the scan of
    [Block_Recycle]: state, installed hole list and free-line count. *)
Definition recycle_lines (ls : list LineMeta) : BlockState * list Hole * nat :=
  if no_marks ls then (Free, [(METADATA_LINES, length ls - METADATA_LINES)],
                       length ls - METADATA_LINES)
  else let hs := scan_holes ls in
       let total := sum_lengths hs in
       if total <? MIN_LINES then (Unavailable, [], total)
       else (Recyclable, hs, total).

Definition Block_State (ls : list LineMeta) : BlockState :=
  fst (fst (recycle_lines ls)).
Definition Block_Holes (ls : list LineMeta) : list Hole :=
  snd (fst (recycle_lines ls)).
Definition Block_Free (ls : list LineMeta) : nat := snd (recycle_lines ls).

End Recycle.

(** The threaded representation of a hole list: each hole's first words
    hold the offset of the next hole (or [LAST_HOLE]) and its size. *)
Definition next_offset (hs : list Hole) : Z :=
  match hs with
  | [] => LAST_HOLE
  | (o, _) :: _ => Z.of_nat o
  end.

Fixpoint thread (hs : list Hole) : list (nat * FreeLineMeta) :=
  match hs with
  | [] => []
  | (o, s) :: hs' => (o, mkFreeLine (next_offset hs') (Z.of_nat s)) :: thread hs'
  end.

Definition write_holes (ws : list (nat * FreeLineMeta)) (mem : gmap nat FreeLineMeta)
    : gmap nat FreeLineMeta :=
  foldr (fun w m => <[fst w := snd w]> m) mem ws.

(** Modelled from the spec: [Block_Recycle allocator block blockStart
    lineMetas].  Reads the line marks, rewrites the block state, installs the
    hole list (head in the block metadata, links in the holes' first words)
    and records the marked- and free-line counts.  Line marks are only read. *)
Definition Block_Recycle (MIN_LINES : nat) (b : Block) : Block :=
  let ls := blk_lines b in
  match recycle_lines MIN_LINES ls with
  | (st, hs, free) =>
      {| blk_meta := {| bm_state := st; bm_first := next_offset hs;
                        bm_marked := count_marked ls; bm_free := free |};
         blk_lines := ls;
         blk_mem := write_holes (thread hs) (blk_mem b) |}
  end.

(** Hole-list traversal from a head offset, following "next" words until
    [LAST_HOLE]; [fuel] bounds the number of holes visited. *)
Fixpoint traverse (fuel : nat) (cur : Z) (mem : gmap nat FreeLineMeta) : list Hole :=
  match fuel with
  | 0 => []
  | S f =>
      if Z.eqb cur LAST_HOLE then []
      else match mem !! Z.to_nat cur with
           | None => []
           | Some fl => (Z.to_nat cur, Z.to_nat (fl_size fl)) :: traverse f (fl_next fl) mem
           end
  end.

(** Excluded lines, stated directly: line [i] is conservatively excluded
    when line [i-1] is marked, line [i] is not, and line [i] does not carry
    the object-start bit. *)
Fixpoint excluded_lines (prev : bool) (ls : list LineMeta) : nat :=
  match ls with
  | [] => 0
  | l :: ls' =>
      (if negb (line_marked l) && prev && negb (line_objstart l) then 1 else 0)
      + excluded_lines (line_marked l) ls'
  end.

Definition excluded_count (ls : list LineMeta) : nat := excluded_lines false ls.

(** Build a line table of [n] lines whose marked lines are [ms]. *)
Definition lines_of (n : nat) (ms : list nat) : list LineMeta :=
  map (fun i => mkLine (bool_decide (i ∈ ms)) false) (seq 0 n).

(** ** Block allocator *)

(** Modelled from the spec: the block allocator (its implementation is not
    part of the sources): a stack of free blocks and a queue of recyclable
    blocks, by block index. *)
Record BlockAllocator := mkBlockAllocator {
  ba_free : list nat;
  ba_recyclable : list nat
}.

Inductive Acquired := Acquired_Block (blk : nat) | Exhausted.

(** Modelled from the spec: [acquireBlock] takes a recyclable block first,
    a free block only when there is none, and reports [Exhausted] when both
    pools are empty. *)
Definition acquireBlock (ba : BlockAllocator) : Acquired * BlockAllocator :=
  match ba_recyclable ba with
  | blk :: rest => (Acquired_Block blk, mkBlockAllocator (ba_free ba) rest)
  | [] =>
      match ba_free ba with
      | blk :: rest => (Acquired_Block blk, mkBlockAllocator rest [])
      | [] => (Exhausted, ba)
      end
  end.

(** Modelled from the spec: [releaseBlock] files a recycled block by its
    new state; an unavailable block joins no pool. *)
Definition releaseBlock (ba : BlockAllocator) (blk : nat) (st : BlockState)
    : BlockAllocator :=
  match st with
  | Free => mkBlockAllocator (blk :: ba_free ba) (ba_recyclable ba)
  | Recyclable => mkBlockAllocator (ba_free ba) (ba_recyclable ba ++ [blk])
  | Unavailable => ba
  end.

(** ** Mutator allocator *)

Definition LINE_SIZE : nat := 128.
Definition LINE_COUNT : nat := 256.
Definition BLOCK_SIZE : nat := LINE_SIZE * LINE_COUNT.

(** Modelled from the spec: the per-mutator allocation context: cursor and
    limit in the active hole, the active block and its remaining holes, the
    block pools, and the hole list each recycled block holds. *)
Record Allocator := mkAllocator {
  al_cursor : nat;
  al_limit : nat;
  al_block : option nat;
  al_holes : list Hole;
  al_blocks : BlockAllocator;
  al_heap : gmap nat (list Hole)
}.

Definition hole_cursor (blk : nat) (h : Hole) : nat :=
  blk * BLOCK_SIZE + fst h * LINE_SIZE.
Definition hole_limit (blk : nat) (h : Hole) : nat :=
  blk * BLOCK_SIZE + (fst h + snd h) * LINE_SIZE.

(** The next hole of the active block that can take [size] bytes: its
    cursor, its limit and the holes after it. *)
Fixpoint next_hole (blk : nat) (hs : list Hole) (size : nat)
    : option (nat * nat * list Hole) :=
  match hs with
  | [] => None
  | h :: hs' =>
      if hole_cursor blk h + size <=? hole_limit blk h
      then Some (hole_cursor blk h, hole_limit blk h, hs')
      else next_hole blk hs' size
  end.

(** Modelled from the spec: the slow path of [allocate]: advance through
    the active block's holes, then acquire a new block; on [Exhausted] the
    allocation fails (the collector driver runs a cycle and retries). *)
Fixpoint allocate_slow (fuel : nat) (a : Allocator) (size : nat)
    : option nat * Allocator :=
  let fits := match al_block a with
              | Some blk => next_hole blk (al_holes a) size
              | None => None
              end in
  match fits with
  | Some (c, l, rest) =>
      (Some c, mkAllocator (c + size) l (al_block a) rest (al_blocks a) (al_heap a))
  | None =>
      match fuel with
      | 0 => (None, a)
      | S f =>
          match acquireBlock (al_blocks a) with
          | (Exhausted, _) => (None, a)
          | (Acquired_Block blk, ba') =>
              allocate_slow f
                (mkAllocator 0 0 (Some blk) (default [] (al_heap a !! blk)) ba'
                   (al_heap a)) size
          end
      end
  end.

(** Modelled from the spec: [allocate size]: bump the cursor when the
    object fits in the active hole, otherwise take the slow path. *)
Definition allocate (a : Allocator) (size : nat) : option nat * Allocator :=
  if al_cursor a + size <=? al_limit a
  then (Some (al_cursor a),
        mkAllocator (al_cursor a + size) (al_limit a) (al_block a) (al_holes a)
          (al_blocks a) (al_heap a))
  else allocate_slow
         (S (length (ba_free (al_blocks a)) + length (ba_recyclable (al_blocks a))))
         a size.

(** A hole is free of overlap with, and strictly before, a later one. *)
Definition hole_before (h1 h2 : Hole) : Prop :=
  fst h1 < fst h2 /\ fst h1 + snd h1 <= fst h2.

(** Invariant of the scan: the candidate hole ends just before line [i]. *)
Definition cur_ok (i : nat) (cur : option Hole) : Prop :=
  match cur with
  | Some (s, n) => s + n = i /\ 1 <= n
  | None => True
  end.

Definition cur_start (i : nat) (cur : option Hole) : nat :=
  match cur with Some (s, _) => s | None => i end.

Definition cur_len (cur : option Hole) : nat :=
  match cur with Some (_, n) => n | None => 0 end.

Definition cur_count (cur : option Hole) : nat :=
  match cur with Some _ => 1 | None => 0 end.

(** The hole list as a traversal of the block sees it: from the head offset
    in the block metadata, following the "next" words. *)
Definition installed_holes (b : Block) : list Hole :=
  traverse (S (length (blk_lines b))) (bm_first (blk_meta b)) (blk_mem b).

(** ** Concrete blocks *)

(** An 8-line block whose marked lines are 0, 1, 2 and 6, no object-start
    bit set, with an empty hole list from an earlier cycle. *)
Definition c2_lines : list LineMeta := lines_of 8 [0; 1; 2; 6].

Definition c2_block : Block :=
  mkBlock (mkBlockMeta Unavailable LAST_HOLE 0 0) c2_lines ∅.

(** A block without marks and a block with every line marked. *)
Definition unmarked_block : Block :=
  mkBlock (mkBlockMeta Unavailable LAST_HOLE 0 0) (lines_of 8 []) ∅.

Definition full_block : Block :=
  mkBlock (mkBlockMeta Recyclable LAST_HOLE 0 0) (lines_of 8 (seq 0 8)) ∅.

(** An allocator with an active hole of one line in block 0, and one with no
    active block and block 2 waiting in the recyclable pool. *)
Definition alloc_active : Allocator :=
  mkAllocator 0 LINE_SIZE (Some 0) [] (mkBlockAllocator [] []) ∅.

Definition alloc_idle : Allocator :=
  mkAllocator 0 0 None [] (mkBlockAllocator [5] [2]) {[2 := [(4, 2)]]}.

(** ** Lemmas about the line scan *)

Example scan_ex1 : scan_holes 1 (lines_of 8 [0; 1; 2; 6]) = [(4, 2)].
Proof. reflexivity. Qed.
Example scan_ex2 : scan_holes 1 (lines_of 8 [0; 7]) = [(2, 5)].
Proof. reflexivity. Qed.
Example scan_ex3 : scan_holes 1 (lines_of 8 [3; 4; 5]) = [(0, 3); (7, 1)].
Proof. reflexivity. Qed.


Section ScanFacts.

Variable MIN_LINES : nat.

Lemma close_hole_elem cur rest h :
  h ∈ close_hole MIN_LINES cur rest ->
  h ∈ rest \/ (cur = Some h /\ MIN_LINES <= snd h).
Proof.
  destruct cur as [[s n]|]; simpl; [|auto].
  destruct (Nat.leb_spec MIN_LINES n); [|auto].
  rewrite elem_of_cons. intros [->|?]; auto.
Qed.

Lemma scan_bounds ls : forall i p cur h,
  cur_ok i cur -> h ∈ scan MIN_LINES i p cur ls ->
  cur_start i cur <= fst h /\ fst h + snd h <= i + length ls /\
  MIN_LINES <= snd h /\ 1 <= snd h.
Proof.
  induction ls as [|l ls IH]; intros i p cur h Hok Hin; simpl in Hin.
  - apply close_hole_elem in Hin as [Hin|[-> Hm]]; [set_solver|].
    destruct h as [s n]; simpl in *; lia.
  - destruct (line_marked l).
    + apply close_hole_elem in Hin as [Hin|[-> Hm]].
      * destruct (IH (S i) true None h I Hin) as (H1 & H2 & H3 & H4).
        destruct cur as [[s n]|]; simpl in *; lia.
      * destruct h as [s n]; simpl in *; lia.
    + destruct (p && negb (line_objstart l)).
      * destruct (IH (S i) false None h I Hin) as (H1 & H2 & H3 & H4).
        destruct cur as [[s n]|]; simpl in *; lia.
      * destruct cur as [[s n]|].
        -- destruct (IH (S i) false (Some (s, S n)) h) as (H1 & H2 & H3 & H4);
             [simpl in *; lia|done|simpl in *; lia].
        -- destruct (IH (S i) false (Some (i, 1)) h) as (H1 & H2 & H3 & H4);
             [simpl; lia|done|simpl in *; lia].
Qed.

Lemma scan_sorted ls : forall i p cur,
  cur_ok i cur -> StronglySorted hole_before (scan MIN_LINES i p cur ls).
Proof.
  induction ls as [|l ls IH]; intros i p cur Hok; simpl.
  - destruct cur as [[s n]|]; simpl; [|constructor].
    destruct (MIN_LINES <=? n); repeat constructor.
  - destruct (line_marked l).
    + destruct cur as [[s n]|]; simpl; [|apply IH; exact I].
      destruct (MIN_LINES <=? n); [|apply IH; exact I].
      constructor; [apply IH; exact I|].
      apply Forall_forall. intros h Hh.
      destruct (scan_bounds ls (S i) true None h I Hh) as (H1 & _).
      unfold hole_before; simpl in *; lia.
    + destruct (p && negb (line_objstart l)); [apply IH; exact I|].
      destruct cur as [[s n]|]; apply IH; simpl in *; lia.
Qed.

Lemma scan_length ls : forall i p cur,
  length (scan MIN_LINES i p cur ls) <= length ls + cur_count cur.
Proof.
  assert (Hc : forall cur rest,
    length (close_hole MIN_LINES cur rest) <= length rest + cur_count cur).
  { intros [[s n]|] rest; simpl; [destruct (MIN_LINES <=? n); simpl|]; lia. }
  induction ls as [|l ls IH]; intros i p cur; simpl.
  - specialize (Hc cur []); simpl in Hc.
    destruct cur as [[s n]|]; simpl in *; [|lia].
    destruct (MIN_LINES <=? n); simpl in *; lia.
  - destruct (line_marked l).
    + specialize (Hc cur (scan MIN_LINES (S i) true None ls)).
      specialize (IH (S i) true None). simpl in IH.
      destruct cur as [[s n]|]; simpl in *; [|lia].
      destruct (MIN_LINES <=? n); simpl in *; lia.
    + destruct (p && negb (line_objstart l)).
      * specialize (IH (S i) false None); simpl in IH; lia.
      * destruct cur as [[s n]|].
        -- specialize (IH (S i) false (Some (s, S n))); simpl in *; lia.
        -- specialize (IH (S i) false (Some (i, 1))); simpl in *; lia.
Qed.

End ScanFacts.

(** ** Conservation of lines in the scan *)

Section Conservation.

Variable MIN_LINES : nat.

Lemma sum_close_le cur rest :
  sum_lengths (close_hole MIN_LINES cur rest) <= cur_len cur + sum_lengths rest.
Proof.
  destruct cur as [[s n]|]; simpl; [destruct (MIN_LINES <=? n); simpl|]; lia.
Qed.

Lemma sum_close_eq i cur rest :
  MIN_LINES <= 1 -> cur_ok i cur ->
  sum_lengths (close_hole MIN_LINES cur rest) = cur_len cur + sum_lengths rest.
Proof.
  intros Hm Hok. destruct cur as [[s n]|]; simpl in *; [|lia].
  destruct (Nat.leb_spec MIN_LINES n); simpl; lia.
Qed.

Lemma scan_conservation_le ls : forall i p cur,
  (p = true -> cur = None) ->
  sum_lengths (scan MIN_LINES i p cur ls) + count_marked ls + excluded_lines p ls
  <= length ls + cur_len cur.
Proof.
  induction ls as [|l ls IH]; intros i p cur Hp; simpl.
  - pose proof (sum_close_le cur []). simpl in *. lia.
  - destruct (line_marked l) eqn:Em; simpl.
    + pose proof (sum_close_le cur (scan MIN_LINES (S i) true None ls)).
      specialize (IH (S i) true None (fun _ => eq_refl)). simpl in IH. lia.
    + destruct p, (line_objstart l); simpl.
      * specialize (Hp eq_refl); subst cur; simpl.
        specialize (IH (S i) false (Some (i, 1)) ltac:(discriminate)).
        simpl in IH. lia.
      * specialize (Hp eq_refl); subst cur; simpl.
        specialize (IH (S i) false None ltac:(discriminate)). simpl in IH. lia.
      * destruct cur as [[s n]|].
        -- specialize (IH (S i) false (Some (s, S n)) ltac:(discriminate)).
           simpl in *. lia.
        -- specialize (IH (S i) false (Some (i, 1)) ltac:(discriminate)).
           simpl in *. lia.
      * destruct cur as [[s n]|].
        -- specialize (IH (S i) false (Some (s, S n)) ltac:(discriminate)).
           simpl in *. lia.
        -- specialize (IH (S i) false (Some (i, 1)) ltac:(discriminate)).
           simpl in *. lia.
Qed.

Lemma scan_conservation_eq ls : forall i p cur,
  MIN_LINES <= 1 -> cur_ok i cur -> (p = true -> cur = None) ->
  sum_lengths (scan MIN_LINES i p cur ls) + count_marked ls + excluded_lines p ls
  = length ls + cur_len cur.
Proof.
  induction ls as [|l ls IH]; intros i p cur Hm Hok Hp; simpl.
  - rewrite (sum_close_eq i cur [] Hm Hok). simpl. lia.
  - destruct (line_marked l) eqn:Em; simpl.
    + rewrite (sum_close_eq i cur _ Hm Hok).
      specialize (IH (S i) true None Hm I (fun _ => eq_refl)). simpl in IH. lia.
    + destruct p, (line_objstart l); simpl.
      * specialize (Hp eq_refl); subst cur; simpl.
        specialize (IH (S i) false (Some (i, 1)) Hm ltac:(simpl; lia)
                      ltac:(discriminate)).
        simpl in IH. lia.
      * specialize (Hp eq_refl); subst cur; simpl.
        specialize (IH (S i) false None Hm I ltac:(discriminate)). simpl in IH. lia.
      * destruct cur as [[s n]|].
        -- specialize (IH (S i) false (Some (s, S n)) Hm ltac:(simpl in *; lia)
                        ltac:(discriminate)).
           simpl in *. lia.
        -- specialize (IH (S i) false (Some (i, 1)) Hm ltac:(simpl; lia)
                        ltac:(discriminate)).
           simpl in *. lia.
      * destruct cur as [[s n]|].
        -- specialize (IH (S i) false (Some (s, S n)) Hm ltac:(simpl in *; lia)
                        ltac:(discriminate)).
           simpl in *. lia.
        -- specialize (IH (S i) false (Some (i, 1)) Hm ltac:(simpl; lia)
                        ltac:(discriminate)).
           simpl in *. lia.
Qed.

Lemma scan_all_marked ls : forall i p,
  Forall (fun l => line_marked l = true) ls -> scan MIN_LINES i p None ls = [].
Proof.
  induction ls as [|l ls IH]; intros i p Hall; simpl; [done|].
  apply Forall_cons in Hall as [Hl Hall]. rewrite Hl. simpl. by apply IH.
Qed.

Lemma sum_lengths_elem hs h : h ∈ hs -> snd h <= sum_lengths hs.
Proof.
  induction hs as [|h' hs IH]; simpl; [set_solver|].
  rewrite elem_of_cons. intros [->|Hin]; [lia|]. specialize (IH Hin). lia.
Qed.

(** A recorded hole is at least [MIN_LINES] long, so a scan total below
    [MIN_LINES] means that no hole was recorded. *)
Lemma scan_total_small ls :
  sum_lengths (scan_holes MIN_LINES ls) < MIN_LINES -> scan_holes MIN_LINES ls = [].
Proof.
  intros Hlt. destruct (scan_holes MIN_LINES ls) as [|h hs] eqn:E; [done|].
  exfalso.
  assert (Hin : h ∈ scan 
    MIN_LINES 0 false None ls) by (unfold scan_holes in E; rewrite E; set_solver).
  destruct (scan_bounds MIN_LINES ls 0 false None h I Hin) as (_ & _ & H3 & _).
  pose proof (sum_lengths_elem (h :: hs) h ltac:(set_solver)).
  rewrite <- E in *. lia.
Qed.

Lemma no_marks_spec ls :
  no_marks ls = true <-> Forall (fun l => line_marked l = false) ls.
Proof.
  induction ls as [|l ls IH]; simpl; [split; auto|].
  rewrite andb_true_iff, Forall_cons, IH, negb_true_iff. tauto.
Qed.

End Conservation.

(** ** The threaded hole list *)

Lemma write_holes_union ws mem : write_holes ws mem = write_holes ws ∅ ∪ mem.
Proof.
  induction ws as [|w ws IH]; simpl.
  - by rewrite (left_id ∅ (∪)).
  - unfold write_holes in *. rewrite IH. by rewrite insert_union_l.
Qed.

Lemma write_holes_twice ws mem :
  write_holes ws (write_holes ws mem) = write_holes ws mem.
Proof.
  rewrite (write_holes_union ws (write_holes ws mem)), (write_holes_union ws mem).
  by rewrite (assoc (∪)), (idemp (∪)).
Qed.

Lemma write_holes_lookup ws mem o fl :
  NoDup (map fst ws) -> (o, fl) ∈ ws -> write_holes ws mem !! o = Some fl.
Proof.
  induction ws as [|[o' fl'] ws IH]; simpl; [set_solver|].
  intros Hnd Hin. apply NoDup_cons in Hnd as [Hnot Hnd].
  apply elem_of_cons in Hin as [Heq|Hin].
  - injection Heq as -> ->. apply lookup_insert_eq.
  - rewrite lookup_insert_ne; [by apply IH|].
    intros ->. apply Hnot. apply list_elem_of_In, in_map_iff.
    exists (o, fl). split; [done|]. by apply list_elem_of_In.
Qed.

Lemma thread_fst hs : map fst (thread hs) = map fst hs.
Proof. induction hs as [|[o s] hs IH]; simpl; [done|]. by rewrite IH. Qed.

Lemma thread_last hs o s :
  last hs = Some (o, s) -> (o, mkFreeLine LAST_HOLE (Z.of_nat s)) ∈ thread hs.
Proof.
  induction hs as [|[o' s'] hs IH]; simpl; [discriminate|].
  destruct hs as [|h2 hs].
  - intros Heq; injection Heq as -> ->. simpl. set_solver.
  - intros Hl. specialize (IH Hl). set_solver.
Qed.

Lemma traverse_thread hs mem fuel :
  length hs <= fuel ->
  (forall o fl, (o, fl) ∈ thread hs -> mem !! o = Some fl) ->
  traverse fuel (next_offset hs) mem = hs.
Proof.
  revert fuel. induction hs as [|[o s] hs IH]; intros fuel Hlen Hmem.
  - destruct fuel; reflexivity.
  - destruct fuel as [|fuel]; simpl in Hlen; [lia|]. simpl.
    assert (Hne : Z.eqb (Z.of_nat o) LAST_HOLE = false)
      by (apply Z.eqb_neq; unfold LAST_HOLE; lia).
    rewrite Hne, Nat2Z.id.
    rewrite (Hmem o (mkFreeLine (next_offset hs) (Z.of_nat s))) by (simpl; set_solver).
    simpl. rewrite Nat2Z.id. f_equal. apply IH; [lia|].
    intros o' fl Hin. apply Hmem. simpl. set_solver.
Qed.

Lemma sorted_nodup hs : StronglySorted hole_before hs -> NoDup (map fst hs).
Proof.
  induction 1 as [|h hs Hs IH Hall]; simpl; constructor; [|done].
  intros Hin. apply list_elem_of_In, in_map_iff in Hin as (h' & Heq & Hin).
  rewrite Forall_forall in Hall. destruct (Hall h') as [Hlt _];
    [by apply list_elem_of_In|]. lia.
Qed.

(** The holes chosen by [recycle_lines] are sorted and few enough for the
    traversal's fuel. *)
Lemma recycle_holes_sorted MIN_LINES ls :
  StronglySorted hole_before (Block_Holes MIN_LINES ls).
Proof.
  unfold Block_Holes, recycle_lines.
  destruct (no_marks ls); simpl; [repeat constructor|].
  destruct (sum_lengths (scan_holes MIN_LINES ls) <? MIN_LINES); simpl;
    [constructor|apply scan_sorted; exact I].
Qed.

Lemma recycle_holes_length MIN_LINES ls :
  length (Block_Holes MIN_LINES ls) <= S (length ls).
Proof.
  unfold Block_Holes, recycle_lines, scan_holes. cbv zeta.
  destruct (no_marks ls); simpl; [lia|].
  pose proof (scan_length MIN_LINES ls 0 false None) as H. simpl in H.
  destruct (sum_lengths (scan MIN_LINES 0 false None ls) <? MIN_LINES); simpl; lia.
Qed.

Lemma Block_Recycle_eq MIN_LINES b :
  Block_Recycle MIN_LINES b =
  {| blk_meta := {| bm_state := Block_State MIN_LINES (blk_lines b);
                    bm_first := next_offset (Block_Holes MIN_LINES (blk_lines b));
                    bm_marked := count_marked (blk_lines b);
                    bm_free := Block_Free MIN_LINES (blk_lines b) |};
     blk_lines := blk_lines b;
     blk_mem := write_holes (thread (Block_Holes MIN_LINES (blk_lines b))) (blk_mem b) |}.
Proof.
  unfold Block_Recycle, Block_State, Block_Holes, Block_Free.
  by destruct (recycle_lines MIN_LINES (blk_lines b)) as [[st hs] free].
Qed.

(** Traversing the recycled block yields exactly the holes chosen. *)
Lemma installed_holes_recycle MIN_LINES b :
  installed_holes (Block_Recycle MIN_LINES b) = Block_Holes MIN_LINES (blk_lines b).
Proof.
  rewrite Block_Recycle_eq. unfold installed_holes. cbn [blk_lines blk_meta blk_mem bm_first].
  apply traverse_thread; [apply recycle_holes_length|].
  intros o fl Hin. apply write_holes_lookup; [|done].
  rewrite thread_fst. apply sorted_nodup, recycle_holes_sorted.
Qed.

(** ** Recycling: the claims *)

Section RecycleClaims.

(** The minimum allocation granularity (in lines) is positive. *)
Variable MIN_LINES : nat.
Hypothesis MIN_pos : 1 <= MIN_LINES.

(** C1: after recycling, a block is [Free] iff no line is marked,
    [Unavailable] iff its free-line count (after conservative exclusion) is
    below the minimum allocation granularity, and [Recyclable] otherwise.
    The minimum fits in an empty block's usable lines. *)
Theorem recycle_state_classification (b : Block) :
  MIN_LINES <= length (blk_lines b) - METADATA_LINES ->
  let m := blk_meta (Block_Recycle MIN_LINES b) in
  (bm_state m = Free <-> Forall (fun l => line_marked l = false) (blk_lines b)) /\
  (bm_state m = Unavailable <-> bm_free m < MIN_LINES) /\
  (bm_state m = Recyclable <->
     ~ Forall (fun l => line_marked l = false) (blk_lines b) /\ MIN_LINES <= bm_free m).
Proof.
  intros Hfit. rewrite Block_Recycle_eq. simpl.
  rewrite <- no_marks_spec.
  unfold Block_State, Block_Free, recycle_lines.
  destruct (no_marks (blk_lines b)); simpl.
  - repeat split; try discriminate; try lia; intuition.
  - destruct (Nat.ltb_spec (sum_lengths (scan_holes MIN_LINES (blk_lines b)))
                MIN_LINES); simpl; repeat split; try discriminate; try lia;
      intuition.
Qed.

(** C3 (amended): conservation of lines.  For a block with at least one
    marked line, hole lengths + marked lines + conservatively excluded lines
    never exceed the number of lines, with equality when the minimum
    granularity is one line (no short run is dropped).  For a block with no
    marked line the single hole covers all lines but the metadata line. *)
Theorem recycle_conservation (b : Block) :
  let b' := Block_Recycle MIN_LINES b in
  let ls := blk_lines b in
  (~ Forall (fun l => line_marked l = false) ls ->
     sum_lengths (installed_holes b') + bm_marked (blk_meta b') + excluded_count ls
     <= length ls) /\
  (~ Forall (fun l => line_marked l = false) ls -> MIN_LINES = 1 ->
     sum_lengths (installed_holes b') + bm_marked (blk_meta b') + excluded_count ls
     = length ls) /\
  (Forall (fun l => line_marked l = false) ls ->
     sum_lengths (installed_holes b') = length ls - METADATA_LINES).
Proof using MIN_LINES.
  clear MIN_pos.
  cbv zeta. rewrite installed_holes_recycle, Block_Recycle_eq. simpl.
  rewrite <- no_marks_spec. unfold Block_Holes, recycle_lines, excluded_count.
  destruct (no_marks (blk_lines b)); simpl.
  - split; [intros Hc; by exfalso|]. split; [intros Hc; by exfalso|].
    intros _. lia.
  - pose proof (scan_conservation_le MIN_LINES (blk_lines b) 0 false None
                  ltac:(discriminate)) as Hle.
    pose proof (scan_conservation_eq 1 (blk_lines b) 0 false None
                  ltac:(lia) I ltac:(discriminate)) as Heq.
    unfold scan_holes in *. simpl in Hle, Heq.
    destruct (Nat.ltb_spec (sum_lengths (scan MIN_LINES 0 false None (blk_lines b)))
                MIN_LINES) as [Hlt|Hge]; simpl;
      (split; [intros _; lia|]; split; [|intros; discriminate]);
      intros _ Hm; subst MIN_LINES; lia.
Qed.

(** C4: recycling a block with no marked line makes it [Free] with one
    hole covering every line but the reserved metadata line. *)
Theorem recycle_no_marks_free (b : Block) :
  Forall (fun l => line_marked l = false) (blk_lines b) ->
  bm_state (blk_meta (Block_Recycle MIN_LINES b)) = Free /\
  installed_holes (Block_Recycle MIN_LINES b) =
    [(METADATA_LINES, length (blk_lines b) - METADATA_LINES)].
Proof.
  intros Hnone. rewrite installed_holes_recycle, Block_Recycle_eq. simpl.
  apply no_marks_spec in Hnone.
  unfold Block_State, Block_Holes, recycle_lines. by rewrite Hnone.
Qed.

(** C5: recycling a block whose lines are all marked makes it
    [Unavailable] with an empty hole list. *)
Theorem recycle_all_marked_unavailable (b : Block) :
  blk_lines b <> [] ->
  Forall (fun l => line_marked l = true) (blk_lines b) ->
  bm_state (blk_meta (Block_Recycle MIN_LINES b)) = Unavailable /\
  installed_holes (Block_Recycle MIN_LINES b) = [].
Proof.
  intros Hne Hall. rewrite installed_holes_recycle, Block_Recycle_eq. simpl.
  unfold Block_State, Block_Holes, recycle_lines, scan_holes.
  destruct (blk_lines b) as [|l ls] eqn:E; [done|].
  apply Forall_cons in Hall as [Hl Hall].
  assert (Hnm : no_marks (l :: ls) = false) by (simpl; rewrite Hl; done).
  rewrite Hnm. cbv zeta.
  rewrite (scan_all_marked MIN_LINES (l :: ls) 0 false) by (by constructor).
  simpl. destruct (Nat.ltb_spec 0 MIN_LINES); [done|lia].
Qed.

(** C6: the installed hole list is ordered by strictly ascending offset,
    its holes do not overlap, and their lengths sum to the recorded
    free-line count. *)
Theorem recycle_holes_ordered (b : Block) :
  let b' := Block_Recycle MIN_LINES b in
  StronglySorted hole_before (installed_holes b') /\
  sum_lengths (installed_holes b') = bm_free (blk_meta b').
Proof using MIN_LINES.
  clear MIN_pos.
  cbv zeta. rewrite installed_holes_recycle. split; [apply recycle_holes_sorted|].
  rewrite Block_Recycle_eq. simpl.
  unfold Block_Holes, Block_Free, recycle_lines.
  destruct (no_marks (blk_lines b)); simpl; [lia|].
  destruct (Nat.ltb_spec (sum_lengths (scan_holes MIN_LINES (blk_lines b)))
              MIN_LINES) as [Hlt|]; simpl; [|done].
  by rewrite (scan_total_small MIN_LINES (blk_lines b) Hlt).
Qed.

End RecycleClaims.

(** C7: recycling reads the line marks without changing them, so recycling
    again gives the same block; and two blocks with the same line marks get
    the same metadata and the same hole list. *)
Theorem recycle_idempotent (MIN_LINES : nat) (b : Block) :
  Block_Recycle MIN_LINES (Block_Recycle MIN_LINES b) = Block_Recycle MIN_LINES b /\
  forall b2, blk_lines b2 = blk_lines b ->
    blk_meta (Block_Recycle MIN_LINES b2) = blk_meta (Block_Recycle MIN_LINES b) /\
    installed_holes (Block_Recycle MIN_LINES b2) = installed_holes (Block_Recycle MIN_LINES b).
Proof.
  split.
  - rewrite (Block_Recycle_eq MIN_LINES (Block_Recycle MIN_LINES b)).
    rewrite (Block_Recycle_eq MIN_LINES b). simpl.
    by rewrite write_holes_twice.
  - intros b2 Hl. rewrite !installed_holes_recycle, Hl. split; [|done].
    rewrite !Block_Recycle_eq. simpl. by rewrite Hl.
Qed.

(** C8: [LAST_HOLE] is never the encoding of an offset or length; the head
    pointer is [LAST_HOLE] exactly when the hole list is empty; and the
    last hole's "next" word holds [LAST_HOLE]. *)
Theorem recycle_last_hole_terminator (MIN_LINES : nat) (b : Block) :
  let b' := Block_Recycle MIN_LINES b in
  (forall n : nat, LAST_HOLE <> Z.of_nat n) /\
  (installed_holes b' = [] <-> bm_first (blk_meta b') = LAST_HOLE) /\
  (forall o s, last (installed_holes b') = Some (o, s) ->
     exists fl, blk_mem b' !! o = Some fl /\ fl_next fl = LAST_HOLE /\
               fl_size fl = Z.of_nat s).
Proof.
  assert (Hneg : forall n : nat, LAST_HOLE <> Z.of_nat n)
    by (intros n; unfold LAST_HOLE; lia).
  cbv zeta. rewrite installed_holes_recycle. split; [done|].
  rewrite Block_Recycle_eq. simpl. split.
  - destruct (Block_Holes MIN_LINES (blk_lines b)) as [|[o s] hs]; simpl; [done|].
    split; [discriminate|]. intros Heq. exfalso. by apply (Hneg o).
  - intros o s Hlast. exists (mkFreeLine LAST_HOLE (Z.of_nat s)).
    split; [|done]. apply write_holes_lookup; [|by apply thread_last].
    rewrite thread_fst. apply sorted_nodup, recycle_holes_sorted.
Qed.

(** ** The 8-line example of the spec *)

(** C2 (refuted): line 7 follows the marked line 6, so the boundary rule
    excludes it; for no minimum granularity does recycling install the
    hole list [(4,2); (7,1)]. *)
Lemma c2_hole_list_counterexample :
  ~ (exists MIN_LINES, 1 <= MIN_LINES /\
       installed_holes (Block_Recycle MIN_LINES c2_block) = [(4, 2); (7, 1)]).
Proof.
  intros (MIN_LINES & Hmin & Hh).
  rewrite installed_holes_recycle in Hh. simpl in Hh.
  destruct MIN_LINES as [|[|[|k]]]; [lia|vm_compute in Hh; discriminate..|].
  unfold Block_Holes, recycle_lines in Hh. simpl in Hh. discriminate.
Qed.

(** C2 (amended): for an 8-line block marked exactly at lines 0, 1, 2 and 6
    (no object-start bit), recycling excludes both line 3 and line 7 (each
    follows a marked line) and, for a minimum granularity of at most two
    lines, makes the block [Recyclable] with the single hole [(4,2)]. *)
Theorem c2_recycle_example (MIN_LINES : nat) (b : Block) :
  1 <= MIN_LINES -> MIN_LINES <= 2 -> blk_lines b = c2_lines ->
  bm_state (blk_meta (Block_Recycle MIN_LINES b)) = Recyclable /\
  installed_holes (Block_Recycle MIN_LINES b) = [(4, 2)] /\
  excluded_count (blk_lines b) = 2.
Proof.
  intros H1 H2 Hl. rewrite installed_holes_recycle, Block_Recycle_eq. simpl.
  rewrite Hl. destruct MIN_LINES as [|[|[|k]]]; [lia| | |lia]; vm_compute;
    repeat split.
Qed.

(** ** Block pools and allocation: the claims *)

(** C9: [acquireBlock] returns the head of the recyclable pool when that
    pool is non-empty, takes a free block only when the recyclable pool is
    empty, and reports [Exhausted] exactly when both pools are empty. *)
Theorem acquireBlock_preference (ba : BlockAllocator) :
  (forall blk rest, ba_recyclable ba = blk :: rest ->
     fst (acquireBlock ba) = Acquired_Block blk) /\
  (forall blk ba', acquireBlock ba = (Acquired_Block blk, ba') ->
     (ba_recyclable ba = blk :: ba_recyclable ba' /\ ba_free ba' = ba_free ba) \/
     (ba_recyclable ba = [] /\ ba_free ba = blk :: ba_free ba')) /\
  (fst (acquireBlock ba) = Exhausted <-> ba_free ba = [] /\ ba_recyclable ba = []).
Proof.
  destruct ba as [fr rc]. unfold acquireBlock. simpl.
  split; [intros blk rest ->; done|]. split.
  - intros blk ba' Hacq. destruct rc as [|r rc]; [destruct fr as [|f fr]|].
    + discriminate.
    + injection Hacq as <- <-. right. by split.
    + injection Hacq as <- <-. left. by split.
  - destruct rc, fr; simpl; split; try discriminate; intuition congruence.
Qed.

(** C10: when the object fits in the active hole, [allocate] returns the
    cursor before the call and only advances the cursor by [size]. *)
Theorem allocate_fast_path (a : Allocator) (size : nat) :
  al_cursor a + size <= al_limit a ->
  allocate a size =
    (Some (al_cursor a),
     mkAllocator (al_cursor a + size) (al_limit a) (al_block a) (al_holes a)
       (al_blocks a) (al_heap a)).
Proof.
  intros Hfit. unfold allocate. by rewrite (proj2 (Nat.leb_le _ _) Hfit).
Qed.

(** ** Conservation on an unmarked block *)

(** C3 (refuted): on an 8-line block with no mark, the hole lengths (7),
    the marked lines (0) and the excluded lines (0) do not add up to the 8
    lines of the block: the reserved metadata line is in none of them. *)
Lemma recycle_conservation_counterexample :
  sum_lengths (installed_holes (Block_Recycle 1 unmarked_block))
  + bm_marked (blk_meta (Block_Recycle 1 unmarked_block))
  + excluded_count (blk_lines unmarked_block)
  <> length (blk_lines unmarked_block).
Proof. vm_compute. discriminate. Qed.

(** ** Runs of the models on concrete inputs *)

Example allocate_slow_example :
  fst (allocate alloc_idle 100) = Some (2 * BLOCK_SIZE + 4 * LINE_SIZE).
Proof. reflexivity. Qed.

Example allocate_exhausted_example :
  fst (allocate (mkAllocator 0 0 None [] (mkBlockAllocator [] []) ∅) 8) = None.
Proof. reflexivity. Qed.

Example recycle_example_states :
  bm_state (blk_meta (Block_Recycle 1 (mkBlock (blk_meta c2_block) (lines_of 8 [0; 7]) ∅)))
    = Recyclable /\
  installed_holes (Block_Recycle 1 (mkBlock (blk_meta c2_block) (lines_of 8 [0; 7]) ∅))
    = [(2, 5)].
Proof. split; reflexivity. Qed.

(** ** Witnesses *)

Lemma recycle_state_classification_witness :
  1 <= 1 /\ 1 <= length (blk_lines c2_block) - METADATA_LINES /\
  (let m := blk_meta (Block_Recycle 1 c2_block) in
   (bm_state m = Free <-> Forall (fun l => line_marked l = false) (blk_lines c2_block)) /\
   (bm_state m = Unavailable <-> bm_free m < 1) /\
   (bm_state m = Recyclable <->
      ~ Forall (fun l => line_marked l = false) (blk_lines c2_block) /\ 1 <= bm_free m)).
Proof.
  split; [lia|]. split; [vm_compute; lia|].
  exact (recycle_state_classification 1 ltac:(lia) c2_block ltac:(vm_compute; lia)).
Defined.

Lemma c2_recycle_example_witness :
  blk_lines c2_block = c2_lines /\
  bm_state (blk_meta (Block_Recycle 2 c2_block)) = Recyclable /\
  installed_holes (Block_Recycle 2 c2_block) = [(4, 2)] /\
  excluded_count (blk_lines c2_block) = 2.
Proof.
  split; [reflexivity|].
  exact (c2_recycle_example 2 c2_block ltac:(lia) ltac:(lia) eq_refl).
Defined.

Lemma recycle_no_marks_free_witness :
  Forall (fun l => line_marked l = false) (blk_lines unmarked_block) /\
  bm_state (blk_meta (Block_Recycle 1 unmarked_block)) = Free /\
  installed_holes (Block_Recycle 1 unmarked_block) = [(1, 7)].
Proof.
  assert (H : Forall (fun l => line_marked l = false) (blk_lines unmarked_block))
    by (vm_compute; repeat constructor).
  split; [exact H|].
  exact (recycle_no_marks_free 1 unmarked_block H).
Defined.

Lemma recycle_all_marked_unavailable_witness :
  blk_lines full_block <> [] /\
  Forall (fun l => line_marked l = true) (blk_lines full_block) /\
  bm_state (blk_meta (Block_Recycle 1 full_block)) = Unavailable /\
  installed_holes (Block_Recycle 1 full_block) = [].
Proof.
  assert (Hne : blk_lines full_block <> []) by (vm_compute; discriminate).
  assert (H : Forall (fun l => line_marked l = true) (blk_lines full_block))
    by (vm_compute; repeat constructor).
  split; [exact Hne|]. split; [exact H|].
  exact (recycle_all_marked_unavailable 1 ltac:(lia) full_block Hne H).
Defined.

Lemma allocate_fast_path_witness :
  al_cursor alloc_active + 16 <= al_limit alloc_active /\
  allocate alloc_active 16 =
    (Some 0, mkAllocator 16 LINE_SIZE (Some 0) [] (mkBlockAllocator [] []) ∅).
Proof.
  assert (H : al_cursor alloc_active + 16 <= al_limit alloc_active)
    by (vm_compute; lia).
  split; [exact H|].
  exact (allocate_fast_path alloc_active 16 H).
Defined.
